(** * hc_core_api_c_binding.h: the C binding header of the Holochain core API

    The repository fragment is one C header,
    [hc_core_api_c_binding/include/hc_core_api_c_binding.h].  It has no
    function bodies; what it does, it does at translation time: it tests and
    defines its include guard, pulls in two other headers, and contributes
    two declarations, bracketed by a linkage block when the consumer is a C++
    translation unit.

    The embedding is shallow.  A header is a computation over the
    preprocessor's macro table that may fail (an [#include] that cannot be
    resolved is a fatal error) and that appends items to the translation
    unit; each directive of the header is one step of that computation, in
    the order of the source lines.  The model records which macros are
    defined, not their replacement lists: the header only tests definedness
    ([#ifndef], [#ifdef]), and the identifiers of its two declarations are
    taken as written.  Comments (lines 1 to 3 and the tail of line 22) are
    not part of the model. *)

From stdpp Require Import base option list strings gmap.

Set Warnings "-register-all".
Open Scope string_scope.
Open Scope list_scope.

(** ** Declarations as they appear in a translation unit *)

Module CSyntax.

(** Type expressions.  [Tnamed] is a typedef name, [Tstruct] a struct tag,
    [Tbase] a built-in arithmetic type, [Tconst t] the const-qualified
    version of [t]. *)
Inductive ctype : Type :=
| Tvoid
| Tbase (name : string)
| Tnamed (name : string)
| Tstruct (tag : string)
| Tptr (target : ctype)
| Tconst (t : ctype)
| Tfun (ret : ctype) (params : list ctype).

Inductive storage : Type := Extern | Static | NoStorage.

(** Statements only occur in the body of a function definition. *)
Inductive stmt : Type :=
| Sexpr (e : string)
| Sreturn (e : option string)
| Sblock (body : list stmt).

Inductive decl : Type :=
| DTypedef (name : string) (t : ctype)
| DStruct (tag : string) (fields : list (string * ctype))
| DVar (sc : storage) (name : string) (t : ctype) (init : option string)
| DFun (sc : storage) (name : string) (ret : ctype) (params : list ctype)
       (body : option (list stmt)).

(** What preprocessing hands to the compiler proper: declarations and the
    braces of linkage specifications ([extern "C" {] and its [}]). *)
Inductive item : Type :=
| IDecl (d : decl)
| ILinkOpen (lang : string)
| ILinkClose.

End CSyntax.
Export CSyntax.

(** Induction over type expressions that reaches the parameter types of a
    function type. *)
Section ctype_induction.
Variable P : ctype → Prop.
Hypothesis Hvoid : P Tvoid.
Hypothesis Hbase : ∀ x, P (Tbase x).
Hypothesis Hnamed : ∀ x, P (Tnamed x).
Hypothesis Hstruct : ∀ x, P (Tstruct x).
Hypothesis Hptr : ∀ t, P t → P (Tptr t).
Hypothesis Hconst : ∀ t, P t → P (Tconst t).
Hypothesis Hfun : ∀ r ps, P r → Forall P ps → P (Tfun r ps).

Fixpoint ctype_nested_ind (t : ctype) : P t :=
  match t with
  | Tvoid => Hvoid
  | Tbase x => Hbase x
  | Tnamed x => Hnamed x
  | Tstruct x => Hstruct x
  | Tptr a => Hptr a (ctype_nested_ind a)
  | Tconst a => Hconst a (ctype_nested_ind a)
  | Tfun r ps =>
      Hfun r ps (ctype_nested_ind r)
        ((fix all (l : list ctype) : Forall P l :=
            match l with
            | [] => @List.Forall_nil _ P
            | x :: k => @List.Forall_cons _ P x k (ctype_nested_ind x) (all k)
            end) ps)
  end.
End ctype_induction.

(** ** The preprocessor as a state, writer and error monad *)

Module Preproc.

(** Macro table: the set of names currently defined. *)
Abbreviation macros := (gset string).

(** A preprocessing computation reads and updates the macro table, emits
    items, and may stop with a fatal error ([None]). *)
Definition pp (A : Type) : Type := macros → option (A * macros * list item).

Definition ret {A} (a : A) : pp A := λ m, Some (a, m, []).

Definition bind {A B} (c : pp A) (k : A → pp B) : pp B := λ m,
  match c m with
  | None => None
  | Some (a, m1, o1) =>
      match k a m1 with
      | None => None
      | Some (b, m2, o2) => Some (b, m2, o1 ++ o2)
      end
  end.

Definition emit (i : item) : pp unit := λ m, Some (tt, m, [i]).

(** [#define X] with an empty replacement list. *)
Definition define (x : string) : pp unit := λ m, Some (tt, {[x]} ∪ m, []).

(** [#undef X]; this header has none, headers it includes may. *)
Definition undef (x : string) : pp unit := λ m, Some (tt, m ∖ {[x]}, []).

(** [#ifdef X] group [#endif] and [#ifndef X] group [#endif]: a skipped
    group is not processed at all. *)
Definition ifdef (x : string) (group : pp unit) : pp unit := λ m,
  if decide (x ∈ m) then group m else ret tt m.

Definition ifndef (x : string) (group : pp unit) : pp unit := λ m,
  if decide (x ∈ m) then ret tt m else group m.

(** The two forms of [#include]: [<h>] and ["h"]. *)
Inductive include_form : Type := Angle | Quote.

(** A header is a computation; the search for the file named in an
    [#include] belongs to the build, so it is a parameter. *)
Abbreviation header := (pp unit).
Abbreviation search := (include_form → string → option (pp unit)).

Definition include (find : search) (form : include_form) (path : string) : pp unit :=
  λ m, match find form path with
       | Some h => h m
       | None => None
       end.

Definition run {A} (c : pp A) (m : macros) : option (A * macros * list item) := c m.

(** Items emitted by a run; a failed run emits nothing. *)
Definition emitted {A} (r : option (A * macros * list item)) : list item :=
  match r with Some (_, _, o) => o | None => [] end.

Definition final_macros {A} (r : option (A * macros * list item)) : option macros :=
  match r with Some (_, m, _) => Some m | None => None end.

End Preproc.
Export Preproc.

Declare Scope pp_scope.
Delimit Scope pp_scope with pp.
Notation "c1 ;; c2" := (bind c1 (λ _, c2))
  (at level 100, c2 at level 200, right associativity) : pp_scope.

(** ** The header *)

Definition HOLOCHAIN_RUST_HC_CORE_C_BINDING_H : string :=
  "HOLOCHAIN_RUST_HC_CORE_C_BINDING_H".

Definition cplusplus : string := "__cplusplus".

Definition stdint_h : string := "stdint.h".

Definition hc_dna_c_binding_h : string :=
  "../../hc_dna_c_binding/include/hc_dna_c_binding.h".

(** Line 14: [typedef void Holochain;] *)
Definition Holochain : decl := DTypedef "Holochain" Tvoid.

(** Line 15, the prototype of [hc_new]: storage class [extern], one unnamed
    parameter of type pointer to [Dna], result of type pointer to
    [Holochain], no body. *)
Definition hc_new : decl :=
  DFun Extern "hc_new" (Tptr (Tnamed "Holochain")) [Tptr (Tnamed "Dna")] None.

(** The header, one step per source line (lines 5 to 22). *)
Definition hc_core_api_c_binding_h (find : search) : header :=
  (ifndef HOLOCHAIN_RUST_HC_CORE_C_BINDING_H (
     define HOLOCHAIN_RUST_HC_CORE_C_BINDING_H ;;
     include find Angle stdint_h ;;
     include find Quote hc_dna_c_binding_h ;;
     ifdef cplusplus (emit (ILinkOpen "C")) ;;
     emit (IDecl Holochain) ;;
     emit (IDecl hc_new) ;;
     ifdef cplusplus (emit ILinkClose)))%pp.

(** Lines 10 to 19 on their own: the part of the header that contributes
    declarations.  The header above is the guard and the two [#include]s
    followed by exactly this (lemma [hc_core_api_c_binding_h_unfold]). *)
Definition hc_core_declarations : header :=
  (ifdef cplusplus (emit (ILinkOpen "C")) ;;
   emit (IDecl Holochain) ;;
   emit (IDecl hc_new) ;;
   ifdef cplusplus (emit ILinkClose))%pp.

(** Lines 6 to 9: the guard's [#define] and the two [#include]s. *)
Definition hc_core_includes (find : search) : header :=
  (define HOLOCHAIN_RUST_HC_CORE_C_BINDING_H ;;
   include find Angle stdint_h ;;
   include find Quote hc_dna_c_binding_h)%pp.

(** The header included [n] times in a row. *)
Fixpoint include_times (find : search) (n : nat) : header :=
  match n with
  | 0 => ret tt
  | S n' => (hc_core_api_c_binding_h find ;; include_times find n')%pp
  end.

(** ** What the compiler proper makes of the items

    The header is written for C compilers, with a linkage block for C++
    ones.  The rules below are those of C (ISO C11: 6.7.8 for typedef
    names, 6.5.3.2 for indirection, 6.5.2.3 for member access, 6.5.16.1
    for assignment, 6.5.2.2 for calls) and, for linkage specifications,
    of C++; they are restricted to what the header's declarations
    exercise.  Of the qualifiers only [const] is represented.  Operands are
    given by their types, so a null pointer constant, which is a property
    of an expression, has no counterpart here. *)

Module CTyping.

Fixpoint decls_of (o : list item) : list decl :=
  match o with
  | [] => []
  | IDecl d :: o' => d :: decls_of o'
  | _ :: o' => decls_of o'
  end.

Definition typedef_binding (d : decl) : option (string * ctype) :=
  match d with DTypedef n t => Some (n, t) | _ => None end.

(** Typedef names in scope after [ds], the latest declaration first. *)
Definition typedefs (ds : list decl) : list (string * ctype) :=
  reverse (omap typedef_binding ds).

Definition declared_types (ds : list decl) : list string :=
  (omap typedef_binding ds).*1.

Definition fun_name (d : decl) : option string :=
  match d with DFun _ f _ _ _ => Some f | _ => None end.

Definition declared_functions (ds : list decl) : list string := omap fun_name ds.

(** The declaration of function [f] in force after [ds]: the latest one. *)
Fixpoint fun_decl (ds : list decl) (f : string) : option decl :=
  match ds with
  | [] => None
  | d :: ds' =>
      match fun_decl ds' f with
      | Some d' => Some d'
      | None => if bool_decide (fun_name d = Some f) then Some d else None
      end
  end.

Fixpoint struct_fields (ds : list decl) (tag : string) : option (list (string * ctype)) :=
  match ds with
  | [] => None
  | d :: ds' =>
      match struct_fields ds' tag with
      | Some fs => Some fs
      | None => match d with
                | DStruct tag' fs => if String.eqb tag' tag then Some fs else None
                | _ => None
                end
      end
  end.

Fixpoint ctype_eqb (a b : ctype) : bool :=
  match a, b with
  | Tvoid, Tvoid => true
  | Tbase x, Tbase y => String.eqb x y
  | Tnamed x, Tnamed y => String.eqb x y
  | Tstruct x, Tstruct y => String.eqb x y
  | Tptr a', Tptr b' => ctype_eqb a' b'
  | Tconst a', Tconst b' => ctype_eqb a' b'
  | Tfun r ps, Tfun r' ps' =>
      ctype_eqb r r' &&
      (fix all2 (l l' : list ctype) : bool :=
         match l, l' with
         | [], [] => true
         | x :: k, y :: k' => ctype_eqb x y && all2 k k'
         | _, _ => false
         end) ps ps'
  | _, _ => false
  end.

(** Replace the typedef name [n] by the type it stands for. *)
Fixpoint subst (n : string) (u : ctype) (t : ctype) : ctype :=
  match t with
  | Tnamed x => if String.eqb x n then u else t
  | Tptr a => Tptr (subst n u a)
  | Tconst a => Tconst (subst n u a)
  | Tfun r ps => Tfun (subst n u r) (map (subst n u) ps)
  | _ => t
  end.

(** The type a type expression denotes: typedef names are replaced from
    the latest declaration back, since a typedef can only mention names
    declared before it. *)
Fixpoint expand (env : list (string * ctype)) (t : ctype) : ctype :=
  match env with
  | [] => t
  | (n, u) :: env' => expand env' (subst n u t)
  end.

Definition is_void (t : ctype) : bool := match t with Tvoid => true | _ => false end.
Definition is_function (t : ctype) : bool := match t with Tfun _ _ => true | _ => false end.
Definition is_const (t : ctype) : bool := match t with Tconst _ => true | _ => false end.

(** The unqualified version of a type. *)
Fixpoint unqual (t : ctype) : ctype :=
  match t with
  | Tconst a => unqual a
  | _ => t
  end.

(** A complete object type has a known size and layout: [void] never has,
    a struct has once its members are declared, an unknown name has not. *)
Definition complete (ds : list decl) (t : ctype) : bool :=
  match unqual (expand (typedefs ds) t) with
  | Tvoid | Tnamed _ | Tfun _ _ | Tconst _ => false
  | Tstruct tag => bool_decide (is_Some (struct_fields ds tag))
  | Tbase _ | Tptr _ => true
  end.

(** The type a pointer type points to. *)
Definition pointee (ds : list decl) (t : ctype) : option ctype :=
  match unqual (expand (typedefs ds) t) with
  | Tptr u => Some u
  | _ => None
  end.

(** [*e] for [e] of type [t] (6.5.3.2): the operand shall have pointer
    type, and the result has the type pointed to.  For a pointer to [void]
    the result is a void expression. *)
Definition indirection (ds : list decl) (t : ctype) : option ctype :=
  pointee ds t.

(** The type of the value read through [*e] for [e] of type [t]: a void
    expression has no value (6.3.2.2), and an object is read only at a
    complete object type (6.3.2.1). *)
Definition value_through (ds : list decl) (t : ctype) : option ctype :=
  match indirection ds t with
  | Some u => if complete ds u then Some (unqual u) else None
  | None => None
  end.



(** The language of a translation unit. *)
Inductive language : Type := LangC | LangCxx.

(** Conversion without a cast, as in simple assignment and argument
    passing: arithmetic to arithmetic, a struct to the same struct, and for
    pointers the rules of the language.  In both languages the type pointed
    to on the left must carry the qualifiers of the one on the right, the
    unqualified pointees must be the same type, or the left one [void] and
    the right one an object type.  C (6.5.16.1) also converts a pointer to
    [void] to a pointer to any object type; C++ does not. *)
Definition convertible (lang : language) (ds : list decl) (lhs rhs : ctype) : bool :=
  match unqual (expand (typedefs ds) lhs), unqual (expand (typedefs ds) rhs) with
  | Tbase _, Tbase _ => true
  | Tstruct x, Tstruct y => String.eqb x y
  | Tptr a, Tptr b =>
      implb (is_const b) (is_const a)
      && (ctype_eqb (unqual a) (unqual b)
          || (is_void (unqual a) && negb (is_function (unqual b)))
          || match lang with
             | LangC => is_void (unqual b) && negb (is_function (unqual a))
             | LangCxx => false
             end)
  | _, _ => false
  end.

(** Assignability under C's rule. *)
Definition assignable (ds : list decl) (lhs rhs : ctype) : bool :=
  convertible LangC ds lhs rhs.

Fixpoint all_assignable (ds : list decl) (ps args : list ctype) : bool :=
  match ps, args with
  | [], [] => true
  | p :: ps', a :: args' => assignable ds p a && all_assignable ds ps' args'
  | _, _ => false
  end.

(** Type of the call [f(args)]: the arguments agree in number with the
    parameters of the prototype and each is assignable to its parameter;
    the call has the declared result type. *)
Definition call_type (ds : list decl) (f : string) (args : list ctype) : option ctype :=
  match fun_decl ds f with
  | Some (DFun _ _ r ps _) => if all_assignable ds ps args then Some r else None
  | _ => None
  end.

(** Language linkage of each declaration.  [lang0] is the linkage outside
    every linkage specification (that of the translation unit's language),
    [stk] the specifications open so far, innermost first. *)
Fixpoint linkage (lang0 : string) (stk : list string) (o : list item)
  : list (string * decl) * list string :=
  match o with
  | [] => ([], stk)
  | IDecl d :: o' =>
      let '(r, stk') := linkage lang0 stk o' in ((hd lang0 stk, d) :: r, stk')
  | ILinkOpen l :: o' => linkage lang0 (l :: stk) o'
  | ILinkClose :: o' => linkage lang0 (tl stk) o'
  end.

(** Typedef names a type expression mentions. *)
Fixpoint names_of (t : ctype) : list string :=
  match t with
  | Tnamed x => [x]
  | Tptr a => names_of a
  | Tconst a => names_of a
  | Tfun r ps => names_of r ++ flat_map names_of ps
  | _ => []
  end.

Definition decl_uses (d : decl) : list string :=
  match d with
  | DTypedef _ t => names_of t
  | DStruct _ fs => flat_map (λ p, names_of p.2) fs
  | DVar _ _ t _ => names_of t
  | DFun _ _ r ps _ => names_of r ++ flat_map names_of ps
  end.

(** Every typedef name is declared before it is used; [seen] holds the
    names declared so far. *)
Fixpoint well_scoped (seen : list string) (ds : list decl) : Prop :=
  match ds with
  | [] => True
  | d :: ds' =>
      (∀ x, x ∈ decl_uses d → x ∈ seen) ∧
      well_scoped (seen ++ declared_types [d]) ds'
  end.

(** An item with nothing to execute: no function body, no initialiser. *)
Definition declaration_only (i : item) : bool :=
  match i with
  | IDecl (DFun _ _ _ _ (Some _)) => false
  | IDecl (DVar _ _ _ (Some _)) => false
  | _ => true
  end.

Definition statements_of (i : item) : list stmt :=
  match i with
  | IDecl (DFun _ _ _ _ (Some b)) => b
  | _ => []
  end.

(** A function declared with a parameter of type [t]. *)
Definition takes_param (t : ctype) (d : decl) : bool :=
  match d with
  | DFun _ _ _ ps _ => existsb (ctype_eqb t) ps
  | _ => false
  end.

Definition decl_name (d : decl) : string :=
  match d with
  | DTypedef n _ | DStruct n _ | DVar _ n _ _ | DFun _ n _ _ _ => n
  end.

(** How many declarations in [ds] introduce the name [x]. *)
Definition times_declared (x : string) (ds : list decl) : nat :=
  length (filter (λ d, decl_name d = x) ds).

End CTyping.
Export CTyping.


(** ** A sample build, for closed instances of the theorems *)

(** A stand-in for the system header: two of its typedefs behind a guard. *)
Definition sample_stdint_h : header :=
  (ifndef "_STDINT_H" (
     define "_STDINT_H" ;;
     emit (IDecl (DTypedef "uint8_t" (Tbase "unsigned char"))) ;;
     emit (IDecl (DTypedef "int32_t" (Tbase "int")))))%pp.

(** Modelled from the spec: the sibling header hc_dna_c_binding.h is not in
    the fragment.  The spec says of it only that it declares [Dna], a
    descriptor opaque to this fragment; the stand-in declares [Dna] as a
    typedef of a struct whose members are not given. *)
Definition sample_hc_dna_c_binding_h : header :=
  (ifndef "HOLOCHAIN_RUST_HC_DNA_C_BINDING_H" (
     define "HOLOCHAIN_RUST_HC_DNA_C_BINDING_H" ;;
     emit (IDecl (DTypedef "Dna" (Tstruct "Dna")))))%pp.

Definition sample_search : search := λ form path,
  match form with
  | Angle => if String.eqb path stdint_h then Some sample_stdint_h else None
  | Quote =>
      if String.eqb path hc_dna_c_binding_h then Some sample_hc_dna_c_binding_h
      else None
  end.

(** A C++ translation unit and a C translation unit that include the header
    first thing. *)
Definition sample_cxx_run := run (hc_core_api_c_binding_h sample_search) {[cplusplus]}.
Definition sample_c_run := run (hc_core_api_c_binding_h sample_search) ∅.

(** A build in which nothing resolves. *)
Definition empty_search : search := λ _ _, None.

(** A hostile build: the file found for the quoted include undefines the
    guard of the header that includes it. *)
Definition undefining_search : search := λ form _,
  match form with
  | Angle => Some (ret tt)
  | Quote =>
      Some (undef HOLOCHAIN_RUST_HC_CORE_C_BINDING_H ;;
            emit (IDecl (DTypedef "Dna" Tvoid)))%pp
  end.

(** The build [find] with the file found for one [#include] replaced. *)
Definition with_include (find : search) (form : include_form) (path : string)
    (h : header) : search := λ form' path',
  match form, form' with
  | Angle, Angle | Quote, Quote => if String.eqb path' path then Some h else find form' path'
  | _, _ => find form' path'
  end.

(** A build with a circular include: the file found for the quoted include
    includes the core header back (found through [sample_search]) before
    declaring [Dna]. *)
Definition circular_search : search :=
  with_include sample_search Quote hc_dna_c_binding_h
    (ret tt ;; hc_core_api_c_binding_h sample_search ;; sample_hc_dna_c_binding_h)%pp.

(** * Properties *)

(** ** The header on the sample builds *)

Example sample_c_items :
  emitted sample_c_run =
  [IDecl (DTypedef "uint8_t" (Tbase "unsigned char"));
   IDecl (DTypedef "int32_t" (Tbase "int"));
   IDecl (DTypedef "Dna" (Tstruct "Dna"));
   IDecl Holochain; IDecl hc_new].
Proof. vm_compute. reflexivity. Qed.

Example sample_cxx_items :
  emitted sample_cxx_run =
  [IDecl (DTypedef "uint8_t" (Tbase "unsigned char"));
   IDecl (DTypedef "int32_t" (Tbase "int"));
   IDecl (DTypedef "Dna" (Tstruct "Dna"));
   ILinkOpen "C"; IDecl Holochain; IDecl hc_new; ILinkClose].
Proof. vm_compute. reflexivity. Qed.

(** In the C++ unit the included headers' declarations keep C++ linkage:
    the linkage block opens after the two includes. *)
Example sample_cxx_linkage :
  linkage "C++" [] (emitted sample_cxx_run) =
  ([("C++", DTypedef "uint8_t" (Tbase "unsigned char"));
    ("C++", DTypedef "int32_t" (Tbase "int"));
    ("C++", DTypedef "Dna" (Tstruct "Dna"));
    ("C", Holochain); ("C", hc_new)], []).
Proof. vm_compute. reflexivity. Qed.

Example sample_guard_set_after :
  bool_decide (HOLOCHAIN_RUST_HC_CORE_C_BINDING_H ∈ default ∅ (final_macros sample_c_run))
  = true.
Proof. vm_compute. reflexivity. Qed.

Example sample_three_inclusions :
  emitted (run (include_times sample_search 3) ∅) = emitted sample_c_run.
Proof. vm_compute. reflexivity. Qed.

Example sample_unresolved : run (hc_core_api_c_binding_h empty_search) ∅ = None.
Proof. vm_compute. reflexivity. Qed.

(** With the guard defined beforehand nothing is looked up and nothing is
    emitted, even where no include would resolve. *)
Example sample_guard_predefined :
  emitted (run (hc_core_api_c_binding_h empty_search)
             {[HOLOCHAIN_RUST_HC_CORE_C_BINDING_H]}) = []
  ∧ final_macros (run (hc_core_api_c_binding_h empty_search)
                    {[HOLOCHAIN_RUST_HC_CORE_C_BINDING_H]})
    = Some {[HOLOCHAIN_RUST_HC_CORE_C_BINDING_H]}.
Proof. split; vm_compute; reflexivity. Qed.

(** An included file that undefines the guard defeats it: two inclusions
    then declare [hc_new] twice. *)
Example sample_guard_undefined_by_include :
  times_declared "hc_new"
    (decls_of (emitted (run (include_times undefining_search 2) ∅))) = 2.
Proof. vm_compute. reflexivity. Qed.

Example sample_call_typed :
  let tu := decls_of (emitted sample_c_run) in
  call_type tu "hc_new" [Tptr (Tnamed "Dna")] = Some (Tptr (Tnamed "Holochain"))
  ∧ call_type tu "hc_new" [] = None
  ∧ call_type tu "hc_new" [Tptr (Tnamed "Dna"); Tptr (Tnamed "Dna")] = None
  ∧ call_type tu "hc_new" [Tptr (Tbase "int")] = None
  ∧ call_type tu "hc_new" [Tptr Tvoid] = Some (Tptr (Tnamed "Holochain")).
Proof. vm_compute. done. Qed.

Example sample_handle_uses :
  let tu := decls_of (emitted sample_c_run) in
  indirection tu (Tptr (Tnamed "Holochain")) = Some Tvoid
  ∧ value_through tu (Tptr (Tnamed "Holochain")) = None
  ∧ value_through tu (Tptr (Tnamed "int32_t")) = Some (Tbase "int")
  ∧ value_through tu (Tptr (Tnamed "Dna")) = None
  ∧ assignable tu (Tptr (Tnamed "int32_t")) (Tptr (Tnamed "Holochain")) = true
  ∧ assignable tu (Tptr (Tnamed "Holochain")) (Tptr (Tnamed "Dna")) = true
  ∧ assignable tu (Tptr (Tnamed "Holochain")) (Tptr (Tfun Tvoid [])) = false
  ∧ assignable tu (Tptr (Tnamed "int32_t")) (Tptr (Tnamed "uint8_t")) = false
  ∧ assignable tu (Tptr (Tconst (Tnamed "int32_t"))) (Tptr (Tnamed "int32_t")) = true
  ∧ assignable tu (Tptr (Tnamed "int32_t")) (Tptr (Tconst (Tnamed "int32_t"))) = false
  ∧ convertible LangCxx tu (Tptr (Tnamed "Holochain")) (Tptr (Tnamed "int32_t")) = true
  ∧ convertible LangCxx tu (Tptr (Tnamed "int32_t")) (Tptr (Tnamed "Holochain")) = false.
Proof. vm_compute. done. Qed.

(** ** The monad and the shape of a run of the header *)

Lemma bind_run {A B} (c : pp A) (k : A → pp B) m :
  run (bind c k) m =
  match run c m with
  | Some (a, m1, o1) =>
      match run (k a) m1 with
      | Some (b, m2, o2) => Some (b, m2, o1 ++ o2)
      | None => None
      end
  | None => None
  end.
Proof. unfold run, bind. destruct (c m) as [[[a m1] o1]|]; reflexivity. Qed.

Lemma ifdef_run x (g : pp unit) m :
  run (ifdef x g) m = if bool_decide (x ∈ m) then run g m else Some (tt, m, []).
Proof. unfold run, ifdef, ret. by repeat case_decide; case_bool_decide. Qed.

Lemma ifndef_run x (g : pp unit) m :
  run (ifndef x g) m = if bool_decide (x ∈ m) then Some (tt, m, []) else run g m.
Proof. unfold run, ifndef, ret. by repeat case_decide; case_bool_decide. Qed.

(** The declarations of lines 10 to 19 leave the macro table alone and emit
    the two declarations, inside a linkage block exactly when [__cplusplus]
    is defined. *)
Lemma hc_core_declarations_run m :
  run hc_core_declarations m =
  Some (tt, m,
        if bool_decide (cplusplus ∈ m)
        then [ILinkOpen "C"; IDecl Holochain; IDecl hc_new; ILinkClose]
        else [IDecl Holochain; IDecl hc_new]).
Proof.
  unfold hc_core_declarations, run, bind, ifdef, emit, ret.
  case_bool_decide; simpl; repeat case_decide; done.
Qed.

Lemma hc_core_declarations_decls m :
  decls_of (emitted (run hc_core_declarations m)) = [Holochain; hc_new].
Proof. rewrite hc_core_declarations_run. simpl. by case_bool_decide. Qed.

Section Header.
Context (find : search).

Lemma hc_core_includes_run m :
  run (hc_core_includes find) m =
  match find Angle stdint_h with
  | Some h1 =>
      match run h1 ({[HOLOCHAIN_RUST_HC_CORE_C_BINDING_H]} ∪ m) with
      | Some (_, m1, o1) =>
          match find Quote hc_dna_c_binding_h with
          | Some h2 =>
              match run h2 m1 with
              | Some (_, m2, o2) => Some (tt, m2, o1 ++ o2)
              | None => None
              end
          | None => None
          end
      | None => None
      end
  | None => None
  end.
Proof.
  unfold hc_core_includes, run, bind, define, include.
  destruct (find Angle stdint_h) as [h1|]; [|done].
  destruct (h1 _) as [[[[] m1] o1]|]; [|done].
  destruct (find Quote hc_dna_c_binding_h) as [h2|]; [|done].
  by destruct (h2 _) as [[[[] m2] o2]|].
Qed.

(** The header is its guard around the includes followed by the
    declarations. *)
Lemma hc_core_api_c_binding_h_unfold m :
  run (hc_core_api_c_binding_h find) m =
  run (ifndef HOLOCHAIN_RUST_HC_CORE_C_BINDING_H
         (bind (hc_core_includes find) (λ _, hc_core_declarations))) m.
Proof.
  unfold hc_core_api_c_binding_h. fold hc_core_declarations.
  unfold hc_core_includes, run, ifndef, bind, define, include, ret.
  case_decide; [done|].
  destruct (find Angle stdint_h) as [h1|]; [|reflexivity].
  destruct (h1 _) as [[[[] m1] o1]|]; [|reflexivity].
  destruct (find Quote hc_dna_c_binding_h) as [h2|]; [|reflexivity].
  destruct (h2 _) as [[[[] m2] o2]|]; [|reflexivity].
  destruct (hc_core_declarations m2) as [[[[] m3] o3]|]; [|reflexivity].
  simpl. by rewrite <-!app_assoc.
Qed.

(** Guard already defined: the whole header is skipped. *)
Lemma hc_core_api_c_binding_h_skipped m :
  HOLOCHAIN_RUST_HC_CORE_C_BINDING_H ∈ m →
  run (hc_core_api_c_binding_h find) m = Some (tt, m, []).
Proof.
  intros Hin. rewrite hc_core_api_c_binding_h_unfold, ifndef_run.
  by rewrite bool_decide_eq_true_2.
Qed.

(** Guard not defined: the includes run, then the declarations. *)
Lemma hc_core_api_c_binding_h_expanded m :
  HOLOCHAIN_RUST_HC_CORE_C_BINDING_H ∉ m →
  run (hc_core_api_c_binding_h find) m =
  match run (hc_core_includes find) m with
  | Some (_, m1, oi) =>
      Some (tt, m1, oi ++ emitted (run hc_core_declarations m1))
  | None => None
  end.
Proof.
  intros Hout. rewrite hc_core_api_c_binding_h_unfold, ifndef_run.
  rewrite bool_decide_eq_false_2 by done.
  rewrite bind_run.
  destruct (run (hc_core_includes find) m) as [[[[] m1] oi]|]; [|done].
  by rewrite hc_core_declarations_run.
Qed.

Lemma hc_core_includes_inv m m' oi :
  run (hc_core_includes find) m = Some (tt, m', oi) →
  ∃ h1 h2 m1 o1 o2,
    find Angle stdint_h = Some h1 ∧
    run h1 ({[HOLOCHAIN_RUST_HC_CORE_C_BINDING_H]} ∪ m) = Some (tt, m1, o1) ∧
    find Quote hc_dna_c_binding_h = Some h2 ∧
    run h2 m1 = Some (tt, m', o2) ∧
    oi = o1 ++ o2.
Proof.
  rewrite hc_core_includes_run.
  destruct (find Angle stdint_h) as [h1|]; [|done].
  destruct (run h1 _) as [[[[] m1] o1]|] eqn:H1; [|done].
  destruct (find Quote hc_dna_c_binding_h) as [h2|]; [|done].
  destruct (run h2 m1) as [[[[] m2] o2]|] eqn:H2; [|done].
  intros [= <- <-]. by exists h1, h2, m1, o1, o2.
Qed.

Lemma hc_core_api_c_binding_h_inv m m' o :
  HOLOCHAIN_RUST_HC_CORE_C_BINDING_H ∉ m →
  run (hc_core_api_c_binding_h find) m = Some (tt, m', o) →
  ∃ oi, run (hc_core_includes find) m = Some (tt, m', oi) ∧
        o = oi ++ emitted (run hc_core_declarations m').
Proof.
  intros Hout. rewrite hc_core_api_c_binding_h_expanded by done.
  destruct (run (hc_core_includes find) m) as [[[[] m1] oi]|]; [|done].
  intros [= -> <-]. by exists oi.
Qed.

End Header.

(** ** Facts about the typing rules *)

Lemma ctype_eqb_eq a b : ctype_eqb a b = true ↔ a = b.
Proof.
  revert b.
  induction a as [| x | x | x | a IH | a IH | r ps IHr IHps] using ctype_nested_ind;
    intros [| y | y | y | b | b | r' ps']; simpl;
    rewrite ?String.eqb_eq; try (split; congruence).
  - rewrite IH. split; congruence.
  - rewrite IH. split; congruence.
  - rewrite andb_true_iff, IHr.
    assert (Hps : (fix all2 (l l' : list ctype) : bool :=
                     match l, l' with
                     | [], [] => true
                     | x :: k, y :: k' => ctype_eqb x y && all2 k k'
                     | _, _ => false
                     end) ps ps' = true ↔ ps = ps').
    { clear IHr. revert ps'. induction IHps as [| x k Hx _ IHk]; intros [| y k'];
        try (split; congruence).
      rewrite andb_true_iff, Hx, IHk. split; [intros [-> ->]; done | by intros [= -> ->]]. }
    rewrite Hps. split; [intros [-> ->]; done | by intros [= -> ->]].
Qed.

Lemma ctype_eqb_refl a : ctype_eqb a a = true.
Proof. by apply ctype_eqb_eq. Qed.

Lemma decls_of_app o1 o2 : decls_of (o1 ++ o2) = decls_of o1 ++ decls_of o2.
Proof.
  induction o1 as [| [d | l |] o1 IH]; simpl; [done | | done | done].
  by rewrite IH.
Qed.

Lemma typedefs_app ds1 ds2 : typedefs (ds1 ++ ds2) = typedefs ds2 ++ typedefs ds1.
Proof. unfold typedefs. by rewrite omap_app, reverse_app. Qed.

Lemma declared_types_app ds1 ds2 :
  declared_types (ds1 ++ ds2) = declared_types ds1 ++ declared_types ds2.
Proof. unfold declared_types. by rewrite omap_app, fmap_app. Qed.

Lemma times_declared_app x ds1 ds2 :
  times_declared x (ds1 ++ ds2) = times_declared x ds1 + times_declared x ds2.
Proof. unfold times_declared. by rewrite filter_app, length_app. Qed.

Lemma fun_decl_app ds1 ds2 f :
  fun_decl (ds1 ++ ds2) f =
  match fun_decl ds2 f with
  | Some d => Some d
  | None => fun_decl ds1 f
  end.
Proof.
  induction ds1 as [| d ds1 IH]; simpl.
  - by destruct (fun_decl ds2 f).
  - rewrite IH. by destruct (fun_decl ds2 f).
Qed.

Lemma expand_void env : expand env Tvoid = Tvoid.
Proof. induction env as [| [n u] env IH]; simpl; done. Qed.

Lemma expand_ptr env t : expand env (Tptr t) = Tptr (expand env t).
Proof. revert t. induction env as [| [n u] env IH]; intros t; simpl; [done | apply IH]. Qed.

Lemma expand_const env t : expand env (Tconst t) = Tconst (expand env t).
Proof. revert t. induction env as [| [n u] env IH]; intros t; simpl; [done | apply IH]. Qed.


Lemma well_scoped_app seen ds1 ds2 :
  well_scoped seen (ds1 ++ ds2) ↔
  well_scoped seen ds1 ∧ well_scoped (seen ++ declared_types ds1) ds2.
Proof.
  revert seen. induction ds1 as [| d ds1 IH]; intros seen; simpl.
  - rewrite app_nil_r. tauto.
  - rewrite IH. change (d :: ds1) with ([d] ++ ds1).
    rewrite declared_types_app, app_assoc. tauto.
Qed.

(** ** The translation unit once the header's declarations are in

    [ds0] stands for every declaration that precedes them: the rest of the
    translation unit so far and whatever the two included headers declared. *)

Section AfterHeader.
Variable ds0 : list decl.

Lemma typedefs_after_header :
  typedefs (ds0 ++ [Holochain; hc_new]) = ("Holochain", Tvoid) :: typedefs ds0.
Proof. by rewrite typedefs_app. Qed.

Lemma handle_expands_to_void_ptr :
  expand (typedefs (ds0 ++ [Holochain; hc_new])) (Tptr (Tnamed "Holochain"))
  = Tptr Tvoid.
Proof.
  rewrite typedefs_after_header. simpl. by rewrite expand_ptr, expand_void.
Qed.


Lemma fun_decl_after_header :
  fun_decl (ds0 ++ [Holochain; hc_new]) "hc_new" = Some hc_new.
Proof. by rewrite fun_decl_app. Qed.

Lemma call_type_after_header args :
  call_type (ds0 ++ [Holochain; hc_new]) "hc_new" args =
  match args with
  | [a] => if assignable (ds0 ++ [Holochain; hc_new]) (Tptr (Tnamed "Dna")) a
           then Some (Tptr (Tnamed "Holochain")) else None
  | _ => None
  end.
Proof.
  unfold call_type. rewrite fun_decl_after_header. simpl.
  destruct args as [| a [| b args]]; simpl; [done | | ].
  - by rewrite andb_true_r.
  - by rewrite andb_false_r.
Qed.

End AfterHeader.




Lemma assignable_same_ptr ds t : assignable ds (Tptr t) (Tptr t) = true.
Proof.
  unfold assignable, convertible. rewrite expand_ptr. simpl.
  rewrite ctype_eqb_refl. by destruct (is_const _).
Qed.

(** Where the header is expanded, the declarations of the translation unit
    end with the header's two: [pre] is what the unit held before. *)
Lemma decls_after_expansion find m m' o (pre : list item) :
  HOLOCHAIN_RUST_HC_CORE_C_BINDING_H ∉ m →
  run (hc_core_api_c_binding_h find) m = Some (tt, m', o) →
  ∃ oi, run (hc_core_includes find) m = Some (tt, m', oi) ∧
        decls_of (pre ++ o) = decls_of (pre ++ oi) ++ [Holochain; hc_new].
Proof.
  intros Hout Hrun.
  destruct (hc_core_api_c_binding_h_inv find m m' o Hout Hrun) as (oi & Hinc & ->).
  exists oi. split; [done|].
  by rewrite app_assoc, (decls_of_app (pre ++ oi)), hc_core_declarations_decls.
Qed.

(** ** The statements of the specification *)

(** C1.  Wherever the header is expanded, the declaration of [hc_new] in
    force is the prototype of line 15: named [hc_new], one parameter of type
    pointer to [Dna], result of type pointer to [Holochain].  A call passing
    a [Dna] pointer is well typed; every well-typed call has exactly one
    argument, and its value has type pointer to [Holochain], which denotes
    pointer to [void]: the opaque handle. *)
Theorem hc_new_signature find m m' o (pre : list item) :
  HOLOCHAIN_RUST_HC_CORE_C_BINDING_H ∉ m →
  run (hc_core_api_c_binding_h find) m = Some (tt, m', o) →
  let tu := decls_of (pre ++ o) in
  fun_decl tu "hc_new" =
    Some (DFun Extern "hc_new" (Tptr (Tnamed "Holochain")) [Tptr (Tnamed "Dna")] None)
  ∧ call_type tu "hc_new" [Tptr (Tnamed "Dna")] = Some (Tptr (Tnamed "Holochain"))
  ∧ ∀ args t, call_type tu "hc_new" args = Some t →
      length args = 1
      ∧ t = Tptr (Tnamed "Holochain")
      ∧ expand (typedefs tu) t = Tptr Tvoid.
Proof.
  intros Hout Hrun tu.
  destruct (decls_after_expansion find m m' o pre Hout Hrun) as (oi & _ & Htu).
  subst tu. rewrite Htu. split; [apply fun_decl_after_header|]. split.
  - by rewrite call_type_after_header, assignable_same_ptr.
  - intros args t. rewrite call_type_after_header.
    destruct args as [| a [| b args]]; [done | | done].
    case_match; [|done]. intros [= <-].
    split; [done|]. split; [done|]. apply handle_expands_to_void_ptr.
Qed.

Lemma hc_new_signature_witness :
  let tu := decls_of ([] ++ emitted sample_cxx_run) in
  fun_decl tu "hc_new" =
    Some (DFun Extern "hc_new" (Tptr (Tnamed "Holochain")) [Tptr (Tnamed "Dna")] None)
  ∧ call_type tu "hc_new" [Tptr (Tnamed "Dna")] = Some (Tptr (Tnamed "Holochain"))
  ∧ ∀ args t, call_type tu "hc_new" args = Some t →
      length args = 1
      ∧ t = Tptr (Tnamed "Holochain")
      ∧ expand (typedefs tu) t = Tptr Tvoid.
Proof.
  apply (hc_new_signature sample_search {[cplusplus]}
           (default ∅ (final_macros sample_cxx_run)) (emitted sample_cxx_run) []).
  - by apply not_elem_of_singleton.
  - vm_compute. reflexivity.
Defined.







(** C3.  Wherever the header is expanded, what it declares beyond the
    output of its two includes is exactly the typedef [Holochain] and the
    prototype [hc_new]: one type name, one function, and no function that
    takes the handle back (no destructor, teardown or release). *)
Theorem hc_new_only_entry_point find m m' o :
  HOLOCHAIN_RUST_HC_CORE_C_BINDING_H ∉ m →
  run (hc_core_api_c_binding_h find) m = Some (tt, m', o) →
  ∃ oi own,
    run (hc_core_includes find) m = Some (tt, m', oi)
    ∧ decls_of o = decls_of oi ++ own
    ∧ own = [Holochain; hc_new]
    ∧ declared_types own = ["Holochain"]
    ∧ declared_functions own = ["hc_new"]
    ∧ ∀ d, d ∈ own → takes_param (Tptr (Tnamed "Holochain")) d = false.
Proof.
  intros Hout Hrun.
  destruct (hc_core_api_c_binding_h_inv find m m' o Hout Hrun) as (oi & Hinc & ->).
  exists oi, [Holochain; hc_new].
  rewrite decls_of_app, hc_core_declarations_decls.
  repeat split; try done.
  intros d. rewrite !elem_of_cons, elem_of_nil. by intros [-> | [-> | []]].
Qed.

Lemma hc_new_only_entry_point_witness :
  ∃ oi own,
    run (hc_core_includes sample_search) {[cplusplus]}
      = Some (tt, default ∅ (final_macros sample_cxx_run), oi)
    ∧ decls_of (emitted sample_cxx_run) = decls_of oi ++ own
    ∧ own = [Holochain; hc_new]
    ∧ declared_types own = ["Holochain"]
    ∧ declared_functions own = ["hc_new"]
    ∧ ∀ d, d ∈ own → takes_param (Tptr (Tnamed "Holochain")) d = false.
Proof.
  apply (hc_new_only_entry_point sample_search {[cplusplus]}
           (default ∅ (final_macros sample_cxx_run)) (emitted sample_cxx_run)).
  - by apply not_elem_of_singleton.
  - vm_compute. reflexivity.
Defined.

(** C6.  Wherever the header is expanded with [__cplusplus] defined, its
    declarations are emitted between [extern "C" {] and [}]: whatever the
    linkage in force around the header, both declarations get C language
    linkage and the linkage in force is restored afterwards.  Without
    [__cplusplus] (a C translation unit, where every declaration has C
    linkage) the header emits no linkage block.  Either way [hc_new] has C
    linkage. *)
Theorem hc_new_C_linkage find m m' o :
  HOLOCHAIN_RUST_HC_CORE_C_BINDING_H ∉ m →
  run (hc_core_api_c_binding_h find) m = Some (tt, m', o) →
  ∃ oi own,
    run (hc_core_includes find) m = Some (tt, m', oi)
    ∧ o = oi ++ own
    ∧ (cplusplus ∈ m' →
         own = [ILinkOpen "C"; IDecl Holochain; IDecl hc_new; ILinkClose]
         ∧ ∀ lang0 stk,
             linkage lang0 stk own = ([("C", Holochain); ("C", hc_new)], stk))
    ∧ (cplusplus ∉ m' →
         own = [IDecl Holochain; IDecl hc_new]
         ∧ linkage "C" [] own = ([("C", Holochain); ("C", hc_new)], [])).
Proof.
  intros Hout Hrun.
  destruct (hc_core_api_c_binding_h_inv find m m' o Hout Hrun) as (oi & Hinc & ->).
  exists oi, (emitted (run hc_core_declarations m')).
  rewrite hc_core_declarations_run. simpl.
  split; [done|]. split; [done|]. split; intros Hcpp.
  - by rewrite bool_decide_eq_true_2.
  - by rewrite bool_decide_eq_false_2.
Qed.

Lemma hc_new_C_linkage_witness :
  ∃ oi own,
    run (hc_core_includes sample_search) {[cplusplus]}
      = Some (tt, default ∅ (final_macros sample_cxx_run), oi)
    ∧ emitted sample_cxx_run = oi ++ own
    ∧ (cplusplus ∈ default ∅ (final_macros sample_cxx_run) →
         own = [ILinkOpen "C"; IDecl Holochain; IDecl hc_new; ILinkClose]
         ∧ ∀ lang0 stk,
             linkage lang0 stk own = ([("C", Holochain); ("C", hc_new)], stk))
    ∧ (cplusplus ∉ default ∅ (final_macros sample_cxx_run) →
         own = [IDecl Holochain; IDecl hc_new]
         ∧ linkage "C" [] own = ([("C", Holochain); ("C", hc_new)], [])).
Proof.
  apply (hc_new_C_linkage sample_search {[cplusplus]}
           (default ∅ (final_macros sample_cxx_run)) (emitted sample_cxx_run)).
  - by apply not_elem_of_singleton.
  - vm_compute. reflexivity.
Defined.

(** C8.  Wherever the header is expanded, every item it emits beyond the
    output of its includes is a bare declaration or a linkage brace: none
    has a function body or an initialiser, none holds a statement, and
    [hc_new] itself is declared [extern] without a body. *)
Theorem header_declarations_only find m m' o :
  HOLOCHAIN_RUST_HC_CORE_C_BINDING_H ∉ m →
  run (hc_core_api_c_binding_h find) m = Some (tt, m', o) →
  ∃ oi own,
    run (hc_core_includes find) m = Some (tt, m', oi)
    ∧ o = oi ++ own
    ∧ Forall (λ i, declaration_only i = true ∧ statements_of i = []) own
    ∧ ∃ r ps, fun_decl (decls_of own) "hc_new" = Some (DFun Extern "hc_new" r ps None).
Proof.
  intros Hout Hrun.
  destruct (hc_core_api_c_binding_h_inv find m m' o Hout Hrun) as (oi & Hinc & ->).
  exists oi, (emitted (run hc_core_declarations m')).
  split; [done|]. split; [done|]. split.
  - rewrite hc_core_declarations_run. simpl.
    case_bool_decide; repeat constructor.
  - rewrite hc_core_declarations_decls. by eexists _, _.
Qed.

Lemma header_declarations_only_witness :
  ∃ oi own,
    run (hc_core_includes sample_search) ∅
      = Some (tt, default ∅ (final_macros sample_c_run), oi)
    ∧ emitted sample_c_run = oi ++ own
    ∧ Forall (λ i, declaration_only i = true ∧ statements_of i = []) own
    ∧ ∃ r ps, fun_decl (decls_of own) "hc_new" = Some (DFun Extern "hc_new" r ps None).
Proof.
  apply (header_declarations_only sample_search ∅
           (default ∅ (final_macros sample_c_run)) (emitted sample_c_run)).
  - apply not_elem_of_empty.
  - vm_compute. reflexivity.
Defined.

Lemma include_times_skipped find n m :
  HOLOCHAIN_RUST_HC_CORE_C_BINDING_H ∈ m →
  run (include_times find n) m = Some (tt, m, []).
Proof.
  intros Hin. induction n as [| n IH]; simpl; [done|].
  by rewrite bind_run, hc_core_api_c_binding_h_skipped, IH.
Qed.

(** C9.  Take an inclusion of the header that succeeds and leaves the guard
    defined (no header it includes undefines it).  Then every later
    inclusion, from any macro table in which the guard is still defined,
    leaves the table alone and emits nothing; including the header [n + 1]
    times in a row has the very effect of including it once; and when the
    guard was not defined beforehand, the [n + 1] inclusions together
    declare [Holochain] and [hc_new] once each on top of whatever the
    included headers declare. *)
Theorem include_guard_idempotent find m m1 o :
  run (hc_core_api_c_binding_h find) m = Some (tt, m1, o) →
  HOLOCHAIN_RUST_HC_CORE_C_BINDING_H ∈ m1 →
  (∀ m2, HOLOCHAIN_RUST_HC_CORE_C_BINDING_H ∈ m2 →
     run (hc_core_api_c_binding_h find) m2 = Some (tt, m2, []))
  ∧ (∀ n, run (include_times find (S n)) m = Some (tt, m1, o))
  ∧ (HOLOCHAIN_RUST_HC_CORE_C_BINDING_H ∉ m →
       ∃ oi, run (hc_core_includes find) m = Some (tt, m1, oi) ∧
         ∀ n x, x ∈ ["Holochain"; "hc_new"] →
           times_declared x (decls_of (emitted (run (include_times find (S n)) m)))
           = times_declared x (decls_of oi) + 1).
Proof.
  intros Hrun Hin.
  assert (Hn : ∀ n, run (include_times find (S n)) m = Some (tt, m1, o)).
  { intros n. simpl. rewrite bind_run, Hrun, include_times_skipped by done.
    by rewrite app_nil_r. }
  split; [apply hc_core_api_c_binding_h_skipped|]. split; [done|].
  intros Hout.
  destruct (hc_core_api_c_binding_h_inv find m m1 o Hout Hrun) as (oi & Hinc & ->).
  exists oi. split; [done|]. intros n x Hx. rewrite Hn. simpl.
  rewrite decls_of_app, hc_core_declarations_decls, times_declared_app.
  f_equal. revert Hx. rewrite !elem_of_cons, elem_of_nil.
  by intros [-> | [-> | []]].
Qed.

Lemma include_guard_idempotent_witness :
  (∀ m2, HOLOCHAIN_RUST_HC_CORE_C_BINDING_H ∈ m2 →
     run (hc_core_api_c_binding_h sample_search) m2 = Some (tt, m2, []))
  ∧ (∀ n, run (include_times sample_search (S n)) {[cplusplus]}
          = Some (tt, default ∅ (final_macros sample_cxx_run), emitted sample_cxx_run))
  ∧ (HOLOCHAIN_RUST_HC_CORE_C_BINDING_H ∉ ({[cplusplus]} : gset string) →
       ∃ oi, run (hc_core_includes sample_search) {[cplusplus]}
               = Some (tt, default ∅ (final_macros sample_cxx_run), oi) ∧
         ∀ n x, x ∈ ["Holochain"; "hc_new"] →
           times_declared x
             (decls_of (emitted (run (include_times sample_search (S n)) {[cplusplus]})))
           = times_declared x (decls_of oi) + 1).
Proof.
  apply (include_guard_idempotent sample_search {[cplusplus]}
           (default ∅ (final_macros sample_cxx_run)) (emitted sample_cxx_run)).
  - vm_compute. reflexivity.
  - vm_compute. reflexivity.
Defined.

(** C7.  Unless the guard is already defined, the header cannot be
    processed when its quoted include does not resolve: preprocessing stops
    with an error.  When it is processed, the include has resolved, and the
    header's own declarations use the type name [Dna] (the parameter of
    [hc_new]) without declaring it.  So in a translation unit where every
    type name is declared before use and [Dna] is declared neither before
    the header nor by the system header, it is the sibling header that
    declares [Dna]. *)
Theorem hc_dna_c_binding_h_required find m (pre : list item) :
  HOLOCHAIN_RUST_HC_CORE_C_BINDING_H ∉ m →
  (find Quote hc_dna_c_binding_h = None →
     run (hc_core_api_c_binding_h find) m = None)
  ∧ (∀ m' o, run (hc_core_api_c_binding_h find) m = Some (tt, m', o) →
      ∃ h1 h2 m1 o1 o2,
        find Angle stdint_h = Some h1
        ∧ run h1 ({[HOLOCHAIN_RUST_HC_CORE_C_BINDING_H]} ∪ m) = Some (tt, m1, o1)
        ∧ find Quote hc_dna_c_binding_h = Some h2
        ∧ run h2 m1 = Some (tt, m', o2)
        ∧ o = o1 ++ o2 ++ emitted (run hc_core_declarations m')
        ∧ "Dna" ∈ decl_uses hc_new
        ∧ ("Dna" ∉ declared_types (decls_of (emitted (run hc_core_declarations m'))))
        ∧ (well_scoped [] (decls_of (pre ++ o)) →
           "Dna" ∉ declared_types (decls_of (pre ++ o1)) →
           "Dna" ∈ declared_types (decls_of o2))).
Proof.
  intros Hout. split.
  - intros Hnone. rewrite hc_core_api_c_binding_h_expanded, hc_core_includes_run by done.
    rewrite Hnone.
    destruct (find Angle stdint_h) as [h1|]; [|done].
    by destruct (run h1 _) as [[[[] m1] o1]|].
  - intros m' o Hrun.
    destruct (hc_core_api_c_binding_h_inv find m m' o Hout Hrun) as (oi & Hinc & ->).
    destruct (hc_core_includes_inv find m m' oi Hinc)
      as (h1 & h2 & m1 & o1 & o2 & Hf1 & Hr1 & Hf2 & Hr2 & ->).
    exists h1, h2, m1, o1, o2.
    rewrite <-app_assoc. repeat (split; [done|]).
    rewrite hc_core_declarations_decls. split; [|split].
    + apply list_elem_of_In. cbn. tauto.
    + rewrite list_elem_of_In. cbn. intros [[=] | []].
    + intros Hws Hpre.
      rewrite app_assoc, (decls_of_app (pre ++ o1)), (decls_of_app o2) in Hws.
      rewrite hc_core_declarations_decls in Hws.
      change [Holochain; hc_new] with ([Holochain] ++ [hc_new]) in Hws.
      rewrite !app_assoc in Hws. apply well_scoped_app in Hws as [_ [Huse _]].
      specialize (Huse "Dna"). cbn in Huse.
      rewrite !declared_types_app, !elem_of_app in Huse.
      destruct Huse as [[Hd | Hd] | Hd]; [| done | done |].
      * apply list_elem_of_In. cbn. tauto.
      * apply list_elem_of_In in Hd. cbn in Hd. by destruct Hd as [[=] | []].
Qed.

Lemma hc_dna_c_binding_h_required_witness :
  (sample_search Quote hc_dna_c_binding_h = None →
     run (hc_core_api_c_binding_h sample_search) ∅ = None)
  ∧ (∀ m' o, run (hc_core_api_c_binding_h sample_search) ∅ = Some (tt, m', o) →
      ∃ h1 h2 m1 o1 o2,
        sample_search Angle stdint_h = Some h1
        ∧ run h1 ({[HOLOCHAIN_RUST_HC_CORE_C_BINDING_H]} ∪ ∅) = Some (tt, m1, o1)
        ∧ sample_search Quote hc_dna_c_binding_h = Some h2
        ∧ run h2 m1 = Some (tt, m', o2)
        ∧ o = o1 ++ o2 ++ emitted (run hc_core_declarations m')
        ∧ "Dna" ∈ decl_uses hc_new
        ∧ ("Dna" ∉ declared_types (decls_of (emitted (run hc_core_declarations m'))))
        ∧ (well_scoped [] (decls_of ([] ++ o)) →
           "Dna" ∉ declared_types (decls_of ([] ++ o1)) →
           "Dna" ∈ declared_types (decls_of o2))).
Proof.
  apply (hc_dna_c_binding_h_required sample_search ∅ []).
  apply not_elem_of_empty.
Defined.

(** ** Further properties of the header *)

Lemma linkage_app lang0 stk o1 o2 :
  linkage lang0 stk (o1 ++ o2) =
  let '(r1, s1) := linkage lang0 stk o1 in
  let '(r2, s2) := linkage lang0 s1 o2 in
  (r1 ++ r2, s2).
Proof.
  revert stk. induction o1 as [| [d | l |] o1 IH]; intros stk; simpl.
  - by destruct (linkage lang0 stk o2).
  - rewrite IH. destruct (linkage lang0 stk o1) as [r1 s1].
    by destruct (linkage lang0 s1 o2).
  - apply IH.
  - apply IH.
Qed.

(** The sample headers only ever define their own guard. *)
Lemma sample_stdint_h_macros m0 m1 o1 x :
  run sample_stdint_h m0 = Some (tt, m1, o1) →
  x ≠ "_STDINT_H" → (x ∈ m0 ↔ x ∈ m1).
Proof.
  unfold sample_stdint_h, run, ifndef, bind, define, emit, ret.
  case_decide; intros [= <- <-] Hx; [done|].
  rewrite elem_of_union, elem_of_singleton. tauto.
Qed.

Lemma sample_hc_dna_c_binding_h_macros m0 m1 o1 x :
  run sample_hc_dna_c_binding_h m0 = Some (tt, m1, o1) →
  x ≠ "HOLOCHAIN_RUST_HC_DNA_C_BINDING_H" → (x ∈ m0 ↔ x ∈ m1).
Proof.
  unfold sample_hc_dna_c_binding_h, run, ifndef, bind, define, emit, ret.
  case_decide; intros [= <- <-] Hx; [done|].
  rewrite elem_of_union, elem_of_singleton. tauto.
Qed.

Lemma sample_search_macros form path h m0 m1 o1 x :
  sample_search form path = Some h →
  run h m0 = Some (tt, m1, o1) →
  x ≠ "_STDINT_H" → x ≠ "HOLOCHAIN_RUST_HC_DNA_C_BINDING_H" →
  (x ∈ m0 ↔ x ∈ m1).
Proof.
  unfold sample_search. destruct form; case_match; intros [= <-] Hrun H1 H2.
  - by eapply sample_stdint_h_macros.
  - by eapply sample_hc_dna_c_binding_h_macros.
Qed.

(** X2.  The only macro the header defines is its guard, and it undefines
    none.  For a macro [x] that no header of the build defines or undefines,
    [x] is defined after a successful inclusion exactly when it was defined
    before or is the guard itself. *)
Theorem header_macro_footprint find m m' o x :
  run (hc_core_api_c_binding_h find) m = Some (tt, m', o) →
  (∀ form path h m0 m1 o1,
     find form path = Some h → run h m0 = Some (tt, m1, o1) → (x ∈ m0 ↔ x ∈ m1)) →
  (x ∈ m' ↔ x ∈ m ∨ x = HOLOCHAIN_RUST_HC_CORE_C_BINDING_H).
Proof.
  intros Hrun Hkeep.
  destruct (decide (HOLOCHAIN_RUST_HC_CORE_C_BINDING_H ∈ m)) as [Hin | Hout].
  - rewrite hc_core_api_c_binding_h_skipped in Hrun by done.
    injection Hrun as <- _. split; [by left | by intros [? | ->]].
  - destruct (hc_core_api_c_binding_h_inv find m m' o Hout Hrun) as (oi & Hinc & _).
    destruct (hc_core_includes_inv find m m' oi Hinc)
      as (h1 & h2 & m1 & o1 & o2 & Hf1 & Hr1 & Hf2 & Hr2 & _).
    rewrite <-(Hkeep _ _ _ _ _ _ Hf2 Hr2), <-(Hkeep _ _ _ _ _ _ Hf1 Hr1).
    rewrite elem_of_union, elem_of_singleton. tauto.
Qed.

Lemma header_macro_footprint_witness :
  cplusplus ∈ default ∅ (final_macros sample_cxx_run)
  ↔ cplusplus ∈ ({[cplusplus]} : gset string)
    ∨ cplusplus = HOLOCHAIN_RUST_HC_CORE_C_BINDING_H.
Proof.
  apply (header_macro_footprint sample_search {[cplusplus]}
           (default ∅ (final_macros sample_cxx_run)) (emitted sample_cxx_run) cplusplus).
  - vm_compute. reflexivity.
  - intros form path h m0 m1 o1 Hf Hr.
    by apply (sample_search_macros form path h m0 m1 o1 cplusplus Hf Hr).
Defined.

(** X3.  The guard is defined before the includes are processed, so a
    circular include is harmless.  If the system header leaves the guard
    defined and the file found for the quoted include includes this header
    back (through any build [find2]) after a prefix [before] that leaves the
    guard defined, the nested inclusion contributes nothing: the run is the
    run of the build in which that file is [before] followed by [after]. *)
Theorem circular_include_harmless find find2 h1 (before after : header) m :
  HOLOCHAIN_RUST_HC_CORE_C_BINDING_H ∉ m →
  find Angle stdint_h = Some h1 →
  (∀ m0 m1 o1, run h1 m0 = Some (tt, m1, o1) →
     HOLOCHAIN_RUST_HC_CORE_C_BINDING_H ∈ m0 →
     HOLOCHAIN_RUST_HC_CORE_C_BINDING_H ∈ m1) →
  (∀ m0 m1 o1, run before m0 = Some (tt, m1, o1) →
     HOLOCHAIN_RUST_HC_CORE_C_BINDING_H ∈ m0 →
     HOLOCHAIN_RUST_HC_CORE_C_BINDING_H ∈ m1) →
  find Quote hc_dna_c_binding_h =
    Some (before ;; hc_core_api_c_binding_h find2 ;; after)%pp →
  run (hc_core_api_c_binding_h find) m =
  run (hc_core_api_c_binding_h
         (with_include find Quote hc_dna_c_binding_h (before ;; after)%pp)) m.
Proof.
  intros Hout Hf1 Hk1 Hkb Hf2.
  rewrite !hc_core_api_c_binding_h_expanded, !hc_core_includes_run by done.
  unfold with_include at 1 2. rewrite Hf1, Hf2, String.eqb_refl.
  destruct (run h1 _) as [[[[] m1] o1]|] eqn:H1; [|done].
  assert (Hin1 : HOLOCHAIN_RUST_HC_CORE_C_BINDING_H ∈ m1).
  { eapply Hk1; [done|]. rewrite elem_of_union, elem_of_singleton. by left. }
  rewrite !bind_run.
  destruct (run before m1) as [[[[] ma] oa]|] eqn:Hb; [|done].
  rewrite bind_run, hc_core_api_c_binding_h_skipped by eauto.
  by destruct (run after ma) as [[[[] mb] ob]|].
Qed.

Lemma circular_include_harmless_witness :
  run (hc_core_api_c_binding_h circular_search) ∅ =
  run (hc_core_api_c_binding_h
         (with_include circular_search Quote hc_dna_c_binding_h
            (ret tt ;; sample_hc_dna_c_binding_h)%pp)) ∅.
Proof.
  apply (circular_include_harmless circular_search sample_search
           sample_stdint_h (ret tt) sample_hc_dna_c_binding_h ∅).
  - apply not_elem_of_empty.
  - reflexivity.
  - intros m0 m1 o1 Hr. by apply (sample_stdint_h_macros m0 m1 o1 _ Hr).
  - intros m0 m1 o1 [= <- _]. done.
  - reflexivity.
Defined.

(** X4.  In a C++ translation unit the linkage block covers the header's
    two declarations and nothing else.  The declarations of the included
    headers, which are processed before the block opens, get the linkage
    they would have without it, and so do the declarations [post] that
    follow the header: the linkage specifications open after the header are
    those open after its includes. *)
Theorem header_linkage_scope find m m' o lang0 stk (post : list item) :
  HOLOCHAIN_RUST_HC_CORE_C_BINDING_H ∉ m →
  run (hc_core_api_c_binding_h find) m = Some (tt, m', o) →
  cplusplus ∈ m' →
  ∃ oi, run (hc_core_includes find) m = Some (tt, m', oi) ∧
    linkage lang0 stk (o ++ post) =
    let '(ri, si) := linkage lang0 stk oi in
    let '(rp, sp) := linkage lang0 si post in
    (ri ++ [("C", Holochain); ("C", hc_new)] ++ rp, sp).
Proof.
  intros Hout Hrun Hcpp.
  destruct (hc_core_api_c_binding_h_inv find m m' o Hout Hrun) as (oi & Hinc & ->).
  exists oi. split; [done|].
  rewrite hc_core_declarations_run. simpl. rewrite bool_decide_eq_true_2 by done.
  rewrite <-app_assoc, linkage_app.
  destruct (linkage lang0 stk oi) as [ri si]. simpl.
  by destruct (linkage lang0 si post) as [rp sp].
Qed.

Lemma header_linkage_scope_witness :
  ∃ oi, run (hc_core_includes sample_search) {[cplusplus]}
          = Some (tt, default ∅ (final_macros sample_cxx_run), oi) ∧
    linkage "C++" [] (emitted sample_cxx_run
                      ++ [IDecl (DFun NoStorage "main" (Tbase "int") [] None)]) =
    let '(ri, si) := linkage "C++" [] oi in
    let '(rp, sp) :=
      linkage "C++" si [IDecl (DFun NoStorage "main" (Tbase "int") [] None)] in
    (ri ++ [("C", Holochain); ("C", hc_new)] ++ rp, sp).
Proof.
  apply (header_linkage_scope sample_search {[cplusplus]}
           (default ∅ (final_macros sample_cxx_run)) (emitted sample_cxx_run)).
  - by apply not_elem_of_singleton.
  - vm_compute. reflexivity.
  - vm_compute. reflexivity.
Defined.

(** X5.  The header's declarations depend on one outside type name only.
    [Holochain] is declared (line 14) before [hc_new] uses it (line 15) and
    nothing of [<stdint.h>] is used, so a translation unit stays well scoped
    across the header if and only if [Dna] is declared by the time the
    header's declarations are reached. *)
Theorem header_needs_only_Dna find m m' o (pre : list item) seen :
  HOLOCHAIN_RUST_HC_CORE_C_BINDING_H ∉ m →
  run (hc_core_api_c_binding_h find) m = Some (tt, m', o) →
  ∃ oi, run (hc_core_includes find) m = Some (tt, m', oi) ∧
    (well_scoped seen (decls_of (pre ++ o)) ↔
     well_scoped seen (decls_of (pre ++ oi))
     ∧ "Dna" ∈ seen ++ declared_types (decls_of (pre ++ oi))).
Proof.
  intros Hout Hrun.
  destruct (decls_after_expansion find m m' o pre Hout Hrun) as (oi & Hinc & ->).
  exists oi. split; [done|].
  rewrite well_scoped_app. cbn.
  set (S0 := seen ++ declared_types (decls_of (pre ++ oi))).
  split.
  - intros (Hws & _ & Huse & _). split; [done|].
    assert (Hd : "Dna" ∈ S0 ++ ["Holochain"]).
    { apply Huse, list_elem_of_In. cbn. tauto. }
    apply elem_of_app in Hd as [Hd | Hd]; [done|].
    apply list_elem_of_In in Hd. by destruct Hd as [[=] | []].
  - intros [Hws Hd]. split; [done|]. split; [by intros x Hx%elem_of_nil|].
    split; [|done]. intros x Hx. apply list_elem_of_In in Hx. cbn in Hx.
    apply elem_of_app. destruct Hx as [<- | [<- | []]].
    + right. apply list_elem_of_In. cbn. tauto.
    + by left.
Qed.

Lemma header_needs_only_Dna_witness :
  ∃ oi, run (hc_core_includes sample_search) ∅
          = Some (tt, default ∅ (final_macros sample_c_run), oi) ∧
    (well_scoped [] (decls_of ([] ++ emitted sample_c_run)) ↔
     well_scoped [] (decls_of ([] ++ oi))
     ∧ "Dna" ∈ [] ++ declared_types (decls_of ([] ++ oi))).
Proof.
  apply (header_needs_only_Dna sample_search ∅
           (default ∅ (final_macros sample_c_run)) (emitted sample_c_run) [] []).
  - apply not_elem_of_empty.
  - vm_compute. reflexivity.
Defined.

(** The circular build gives the very items of the plain one. *)
Example circular_run_items :
  emitted (run (hc_core_api_c_binding_h circular_search) ∅) = emitted sample_c_run.
Proof. vm_compute. reflexivity. Qed.
